(** * youtube-transcript-downloader/example.py

    A shallow embedding of the transcript fetch-and-save script and the
    properties of its observable behaviour.

    The script is a straight-line call chain over an external captions
    library.  The library is not part of the repository, so it enters the
    model as data: a [Collaborator] value records what each library call
    answers (a value or a failure).  The script itself is a computation in a
    small state-and-exception monad over a [World] made of the file system
    and a chronological log of the calls that had an effect.

    The script is modelled twice.  [example] keeps file contents at the
    level of Python text: the content of a file is the [str] that went
    through [f.write].  [example_on] adds the platform: [open] names no
    encoding, so the file encodes with the codec of the locale, which turns
    the text into bytes or refuses it.  [example] is [example_on] under a
    codec that stores the text as it is ([example_on_latin_1]). *)

From Stdlib Require Import Ascii.
From stdpp Require Import gmap strings list fin_maps.

Local Open Scope string_scope.

(** ** Failures *)

(** Modelled from the spec: the failures the captions library can raise
    (its exception classes are not in the repository).  Section 7 of the
    specification lists a not-found failure, a no-transcripts failure and a
    transport failure; [OtherFailure] stands for any further class. *)
Inductive failure : Type :=
  | NotFound
  | NoTranscripts
  | TransportFailure
  | OtherFailure (name : string).

(** Exceptions as the interpreter sees them.  The first three are raised by
    the script's own operations (list subscript, dict subscript, [str.join]),
    [UnicodeEncodeError] by a text-mode file whose encoding cannot represent
    what it is given; [CollaboratorError] wraps, unchanged, whatever the
    library raised. *)
Inductive exn : Type :=
  | IndexError
  | KeyError (key : string)
  | TypeError (item : nat)
  | UnicodeEncodeError
  | CollaboratorError (e : failure).

(** Outcome of evaluating a Python expression. *)
Inductive Result (A : Type) : Type :=
  | Ok (a : A)
  | Raise (e : exn).
Arguments Ok {A} a.
Arguments Raise {A} e.

(** Answer of one library call. *)
Inductive Response (A : Type) : Type :=
  | Returns (a : A)
  | Fails (e : failure).
Arguments Returns {A} a.
Arguments Fails {A} e.

(** ** The collaborator's data *)

(** A value stored in a caption entry: the text is a [str], start and
    duration are floats, which the script never inspects (kept by their bit
    pattern). *)
Inductive value : Type :=
  | VStr (s : string)
  | VFloat (bits : Z).

(** A caption entry is a Python dict with string keys. *)
Abbreviation CaptionEntry := (gmap string value).

(** What [transcript.fetch()] returns: an object whose [to_raw_data()]
    gives the list of caption entries. *)
Record FetchedTranscript : Type := {
  to_raw_data : Response (list CaptionEntry)
}.

(** A transcript descriptor.  [language_code] only identifies the caption
    track; the script reads nothing but [fetch]. *)
Record Transcript : Type := {
  language_code : string;
  fetch : Response FetchedTranscript
}.

(** The object returned by the list call is iterated lazily: every
    [__next__] either yields an element, signals exhaustion, or fails. *)
Inductive LazySeq (A : Type) : Type :=
  | Exhausted
  | Yield (x : A) (rest : LazySeq A)
  | Broken (e : failure).
Arguments Exhausted {A}.
Arguments Yield {A} x rest.
Arguments Broken {A} e.

(** The client object: [ytt_api.list(video_id)]. *)
Record Api : Type := {
  api_list : string -> Response (LazySeq Transcript)
}.

(** The library as the script uses it: the constructor
    [YouTubeTranscriptApi()]. *)
Record Collaborator : Type := {
  YouTubeTranscriptApi : Response Api
}.

(** The lazy sequence that yields exactly the elements of [xs]. *)
Fixpoint lazy_of_list {A : Type} (xs : list A) : LazySeq A :=
  match xs with
  | [] => Exhausted
  | x :: rest => Yield x (lazy_of_list rest)
  end.

(** The elements a lazy sequence yields before it stops. *)
Fixpoint seq_items {A : Type} (it : LazySeq A) : list A :=
  match it with
  | Exhausted => []
  | Yield x rest => x :: seq_items rest
  | Broken _ => []
  end.

(** How a lazy sequence stops: normally, or with a failure. *)
Fixpoint seq_end {A : Type} (it : LazySeq A) : option failure :=
  match it with
  | Exhausted => None
  | Yield _ rest => seq_end rest
  | Broken e => Some e
  end.

(** ** The world *)

(** Calls with an observable effect, in the order the script makes them. *)
Inductive Event : Type :=
  | EvConstruct
  | EvList (video_id : string)
  | EvNext
  | EvFetch (language : string)
  | EvToRawData
  | EvOpen (path : string)
  | EvWrite (path : string) (data : string)
  | EvClose (path : string).

Global Instance Event_eq_dec : EqDecision Event.
Proof. solve_decision. Defined.

Record World : Type := {
  fs : gmap string string;
  log : list Event
}.

(** The world after some more events, with the files untouched. *)
Definition record (w : World) (evs : list Event) : World :=
  {| fs := fs w; log := log w ++ evs |}.

(** ** The interpreter monad *)

Definition M (A : Type) : Type := World -> Result A * World.

Definition ret {A : Type} (a : A) : M A := fun w => (Ok a, w).

Definition raise {A : Type} (e : exn) : M A := fun w => (Raise e, w).

Definition bind {A B : Type} (m : M A) (k : A -> M B) : M B :=
  fun w =>
    match m w with
    | (Ok a, w') => k a w'
    | (Raise e, w') => (Raise e, w')
    end.

Notation "x <- m ;; k" := (bind m (fun x => k))
  (at level 100, m at next level, right associativity).
Notation "m ;;; k" := (bind m (fun _ => k))
  (at level 100, right associativity).

Definition emit (ev : Event) : M unit := fun w => (Ok tt, record w [ev]).

(** A pure, possibly failing expression. *)
Definition eval {A : Type} (r : Result A) : M A := fun w => (r, w).

(** A library call: it happens, then returns or raises. *)
Definition call {A : Type} (ev : Event) (r : Response A) : M A :=
  emit ev ;;;
  match r with
  | Returns a => ret a
  | Fails e => raise (CollaboratorError e)
  end.

(** ** Python primitives used by the script *)

(** [[x for x in it]]: one [__next__] per step until exhaustion. *)
Fixpoint materialize {A : Type} (it : LazySeq A) : M (list A) :=
  match it with
  | Exhausted => emit EvNext ;;; ret []
  | Yield x rest => emit EvNext ;;; xs <- materialize rest ;; ret (x :: xs)
  | Broken e => emit EvNext ;;; raise (CollaboratorError e)
  end.

(** [l[i]] on a list. *)
Definition list_getitem {A : Type} (l : list A) (i : nat) : Result A :=
  match l !! i with
  | Some x => Ok x
  | None => Raise IndexError
  end.

(** [d[k]] on a dict. *)
Definition dict_getitem (d : CaptionEntry) (k : string) : Result value :=
  match d !! k with
  | Some v => Ok v
  | None => Raise (KeyError k)
  end.

(** [[x['text'] for x in my_ts_l]]. *)
Fixpoint text_fields (my_ts_l : list CaptionEntry) : Result (list value) :=
  match my_ts_l with
  | [] => Ok []
  | x :: rest =>
      match dict_getitem x "text" with
      | Raise e => Raise e
      | Ok v =>
          match text_fields rest with
          | Raise e => Raise e
          | Ok vs => Ok (v :: vs)
          end
      end
  end.

(** [str.join] accepts only [str] items; the first other item, at position
    [i], is a [TypeError]. *)
Fixpoint str_items (i : nat) (items : list value) : Result (list string) :=
  match items with
  | [] => Ok []
  | VStr s :: rest =>
      match str_items (S i) rest with
      | Raise e => Raise e
      | Ok ss => Ok (s :: ss)
      end
  | VFloat _ :: _ => Raise (TypeError i)
  end.

(** The copy loop of [str.join]: the accumulator receives, for every
    further item, the separator and then the item. *)
Fixpoint join_from (sep acc : string) (rest : list string) : string :=
  match rest with
  | [] => acc
  | s :: rest' => join_from sep (acc +:+ sep +:+ s) rest'
  end.

Definition join_strs (sep : string) (items : list string) : string :=
  match items with
  | [] => ""
  | s :: rest => join_from sep s rest
  end.

(** [sep.join(items)]. *)
Definition str_join (sep : string) (items : list value) : Result string :=
  match str_items 0 items with
  | Raise e => Raise e
  | Ok ss => Ok (join_strs sep ss)
  end.

(** [open(path, "w")]: create or truncate; the handle is the path. *)
Definition open_w (path : string) : M string :=
  fun w => (Ok path, {| fs := <[path := ""]> (fs w);
                        log := log w ++ [EvOpen path] |}).

(** [f.write(data)] through a handle that writes sequentially from the
    start of the truncated file: the data goes after what the handle
    already wrote. *)
Definition file_write (f : string) (data : string) : M unit :=
  fun w => (Ok tt, {| fs := <[f := default "" (fs w !! f) +:+ data]> (fs w);
                      log := log w ++ [EvWrite f data] |}).

Definition file_close (f : string) : M unit := emit (EvClose f).

(** [with open(path, "w") as f: body]: the file is closed when the body
    leaves, normally or by an exception, which then goes on. *)
Definition with_open_w {A : Type} (path : string) (body : string -> M A)
  : M A :=
  f <- open_w path ;;
  fun w =>
    match body f w with
    | (r, w') => (r, snd (file_close f w'))
    end.

(** ** The script *)

Definition VIDEO_ID : string := "sa-ASdF1234".

Definition OUTPUT_PATH : string := "video_transcript.txt".

(** [transcripts[0] if len(transcripts) == 1 else None]. *)
Definition select (transcripts : list Transcript)
  : Result (option Transcript) :=
  if (length transcripts =? 1)%nat then
    match list_getitem transcripts 0 with
    | Ok x => Ok (Some x)
    | Raise e => Raise e
    end
  else Ok None.

(** The body of [if transcript is not None:]. *)
Definition save (transcript : Transcript) : M unit :=
  my_ts <- call (EvFetch (language_code transcript)) (fetch transcript) ;;
  my_ts_l <- call EvToRawData (to_raw_data my_ts) ;;
  with_open_w OUTPUT_PATH (fun f =>
    texts <- eval (text_fields my_ts_l) ;;
    joined <- eval (str_join " " texts) ;;
    file_write f joined).

(** Lines 17 to 22: everything after the list comprehension. *)
Definition process (transcripts : list Transcript) : M unit :=
  transcript <- eval (select transcripts) ;;
  match transcript with
  | Some transcript => save transcript
  | None => ret tt
  end.

(** The whole script. *)
Definition example (lib : Collaborator) : M unit :=
  ytt_api <- call EvConstruct (YouTubeTranscriptApi lib) ;;
  transcript_list <- call (EvList VIDEO_ID) (api_list ytt_api VIDEO_ID) ;;
  transcripts <- materialize transcript_list ;;
  process transcripts.

(** What the list call answers, when the client could be built. *)
Definition list_response (lib : Collaborator)
  : Response (LazySeq Transcript) :=
  match YouTubeTranscriptApi lib with
  | Returns ytt_api => api_list ytt_api VIDEO_ID
  | Fails e => Fails e
  end.

(** The answers to the calls the script makes before it enumerates: the
    constructor's, and inside it the list call's. *)
Definition answers (lib : Collaborator)
  : Response (Response (LazySeq Transcript)) :=
  match YouTubeTranscriptApi lib with
  | Returns ytt_api => Returns (api_list ytt_api VIDEO_ID)
  | Fails e => Fails e
  end.

(** ** Vocabulary of the statements *)

(** The entry has a text field holding the string [s]. *)
Definition has_text (x : CaptionEntry) (s : string) : Prop :=
  x !! "text" = Some (VStr s).

(** The events a run added to the log. *)
Definition new_events (before after : World) : list Event :=
  drop (length (log before)) (log after).

(** Events of the file system. *)
Definition touches_file (ev : Event) : bool :=
  match ev with
  | EvOpen _ | EvWrite _ _ | EvClose _ => true
  | _ => false
  end.

(** The events up to and including the list comprehension over a sequence
    of [n] elements. *)
Definition listing_events (n : nat) : list Event :=
  [EvConstruct; EvList VIDEO_ID] ++ replicate (S n) EvNext.

(** The events of a [save] that runs to its end and writes [data]. *)
Definition saving_events (language data : string) : list Event :=
  [EvFetch language; EvToRawData; EvOpen OUTPUT_PATH;
   EvWrite OUTPUT_PATH data; EvClose OUTPUT_PATH].

(** Position of the [i]-th text in the join of [texts] with a separator of
    one character: the texts before it and one separator after each. *)
Definition offset (texts : list string) (i : nat) : nat :=
  sum_list (String.length <$> take i texts) + i.

(** The argument of [f.write]: [' '.join([x['text'] for x in my_ts_l])]. *)
Definition written_text (my_ts_l : list CaptionEntry) : Result string :=
  match text_fields my_ts_l with
  | Ok texts => str_join " " texts
  | Raise e => Raise e
  end.

(** ** Summary of a run

    A run is summed up by its outcome, the events it logs and the content
    it leaves in the output file, if it opened it.  The summaries below are
    read off the collaborator's answers; [example_run] proves that the
    script does exactly that to any world. *)

Record Summary : Type := {
  outcome : Result unit;
  events : list Event;
  content : option string
}.

Definition overwrite (c : option string) (files : gmap string string)
  : gmap string string :=
  match c with
  | Some data => <[OUTPUT_PATH := data]> files
  | None => files
  end.

Definition apply_summary (s : Summary) (w : World) : Result unit * World :=
  (outcome s, {| fs := overwrite (content s) (fs w);
                 log := log w ++ events s |}).

Definition after (evs : list Event) (s : Summary) : Summary :=
  {| outcome := outcome s; events := evs ++ events s; content := content s |}.

Definition save_summary (t : Transcript) : Summary :=
  match fetch t with
  | Fails e =>
      {| outcome := Raise (CollaboratorError e);
         events := [EvFetch (language_code t)];
         content := None |}
  | Returns my_ts =>
      match to_raw_data my_ts with
      | Fails e =>
          {| outcome := Raise (CollaboratorError e);
             events := [EvFetch (language_code t); EvToRawData];
             content := None |}
      | Returns my_ts_l =>
          match written_text my_ts_l with
          | Ok data =>
              {| outcome := Ok tt;
                 events := saving_events (language_code t) data;
                 content := Some data |}
          | Raise e =>
              {| outcome := Raise e;
                 events := [EvFetch (language_code t); EvToRawData;
                            EvOpen OUTPUT_PATH; EvClose OUTPUT_PATH];
                 content := Some "" |}
          end
      end
  end.

Definition process_summary (ts : list Transcript) : Summary :=
  match ts with
  | [t] => save_summary t
  | _ => {| outcome := Ok tt; events := []; content := None |}
  end.

Definition example_summary (lib : Collaborator) : Summary :=
  match YouTubeTranscriptApi lib with
  | Fails e =>
      {| outcome := Raise (CollaboratorError e);
         events := [EvConstruct];
         content := None |}
  | Returns ytt_api =>
      match api_list ytt_api VIDEO_ID with
      | Fails e =>
          {| outcome := Raise (CollaboratorError e);
             events := [EvConstruct; EvList VIDEO_ID];
             content := None |}
      | Returns tl =>
          match seq_end tl with
          | Some e =>
              {| outcome := Raise (CollaboratorError e);
                 events := listing_events (length (seq_items tl));
                 content := None |}
          | None =>
              after (listing_events (length (seq_items tl)))
                    (process_summary (seq_items tl))
          end
      end
  end.

(** ** Failing library calls

    [collaborator_raises lib e evs]: along the run against [lib] some
    library call raises [e]; [evs] are the events up to and including that
    call.  One rule per call site of the script. *)
Inductive collaborator_raises (lib : Collaborator) (e : failure)
  : list Event -> Prop :=
  | raises_in_constructor :
      YouTubeTranscriptApi lib = Fails e ->
      collaborator_raises lib e [EvConstruct]
  | raises_in_list (ytt_api : Api) :
      YouTubeTranscriptApi lib = Returns ytt_api ->
      api_list ytt_api VIDEO_ID = Fails e ->
      collaborator_raises lib e [EvConstruct; EvList VIDEO_ID]
  | raises_in_next (tl : LazySeq Transcript) :
      list_response lib = Returns tl ->
      seq_end tl = Some e ->
      collaborator_raises lib e (listing_events (length (seq_items tl)))
  | raises_in_fetch (t : Transcript) :
      list_response lib = Returns (lazy_of_list [t]) ->
      fetch t = Fails e ->
      collaborator_raises lib e
        (listing_events 1 ++ [EvFetch (language_code t)])
  | raises_in_to_raw_data (t : Transcript) (my_ts : FetchedTranscript) :
      list_response lib = Returns (lazy_of_list [t]) ->
      fetch t = Returns my_ts ->
      to_raw_data my_ts = Fails e ->
      collaborator_raises lib e
        (listing_events 1 ++ [EvFetch (language_code t); EvToRawData]).

(** ** The shapes of a run

    The summaries a run can have, one rule per place where the script can
    stop: [n] is the number of listed transcripts. *)
Inductive run_shape : Summary -> Prop :=
  | shape_no_client (e : failure) :
      run_shape {| outcome := Raise (CollaboratorError e);
                   events := [EvConstruct];
                   content := None |}
  | shape_no_list (e : failure) :
      run_shape {| outcome := Raise (CollaboratorError e);
                   events := [EvConstruct; EvList VIDEO_ID];
                   content := None |}
  | shape_broken_listing (e : failure) (n : nat) :
      run_shape {| outcome := Raise (CollaboratorError e);
                   events := listing_events n;
                   content := None |}
  | shape_not_selected (n : nat) :
      n <> 1 ->
      run_shape {| outcome := Ok tt;
                   events := listing_events n;
                   content := None |}
  | shape_no_fetch (e : failure) (language : string) :
      run_shape {| outcome := Raise (CollaboratorError e);
                   events := listing_events 1 ++ [EvFetch language];
                   content := None |}
  | shape_no_conversion (e : failure) (language : string) :
      run_shape {| outcome := Raise (CollaboratorError e);
                   events := listing_events 1
                             ++ [EvFetch language; EvToRawData];
                   content := None |}
  | shape_no_text (e : exn) (language : string) :
      run_shape {| outcome := Raise e;
                   events := listing_events 1
                             ++ [EvFetch language; EvToRawData;
                                 EvOpen OUTPUT_PATH; EvClose OUTPUT_PATH];
                   content := Some "" |}
  | shape_written (language data : string) :
      run_shape {| outcome := Ok tt;
                   events := listing_events 1 ++ saving_events language data;
                   content := Some data |}.

(** ** The platform's text layer

    [open("video_transcript.txt", "w")] names no encoding: the file encodes
    what it is given with the codec of the locale.  A [string] handed to
    [f.write] is read as a Python [str], one character for each code point
    (the code points below 256); the codec turns the whole text into bytes
    before anything reaches the file, or refuses it. *)
Record Platform : Type := {
  encode : string -> option string
}.

(** [f.write(data)] on a platform: the text is encoded first; a text the
    codec cannot represent raises and nothing is written. *)
Definition file_write_on (p : Platform) (f : string) (data : string)
  : M unit :=
  fun w =>
    match encode p data with
    | Some bytes =>
        (Ok tt, {| fs := <[f := default "" (fs w !! f) +:+ bytes]> (fs w);
                   log := log w ++ [EvWrite f data] |})
    | None =>
        (Raise UnicodeEncodeError,
         {| fs := fs w; log := log w ++ [EvWrite f data] |})
    end.

(** The script on a platform: as [save], [process] and [example], with
    the platform's write. *)
Definition save_on (p : Platform) (transcript : Transcript) : M unit :=
  my_ts <- call (EvFetch (language_code transcript)) (fetch transcript) ;;
  my_ts_l <- call EvToRawData (to_raw_data my_ts) ;;
  with_open_w OUTPUT_PATH (fun f =>
    texts <- eval (text_fields my_ts_l) ;;
    joined <- eval (str_join " " texts) ;;
    file_write_on p f joined).

Definition process_on (p : Platform) (transcripts : list Transcript)
  : M unit :=
  transcript <- eval (select transcripts) ;;
  match transcript with
  | Some transcript => save_on p transcript
  | None => ret tt
  end.

Definition example_on (p : Platform) (lib : Collaborator) : M unit :=
  ytt_api <- call EvConstruct (YouTubeTranscriptApi lib) ;;
  transcript_list <- call (EvList VIDEO_ID) (api_list ytt_api VIDEO_ID) ;;
  transcripts <- materialize transcript_list ;;
  process_on p transcripts.

(** Latin-1 stores every code point below 256 in one byte. *)
Definition latin_1 : Platform := {| encode := fun data => Some data |}.






(** The summary of a run on a platform, from the summary of the run at the
    level of text: a run that wrote leaves the bytes of the text, or, when
    the codec refuses the text, ends with the exception of the write and
    leaves the file as [open] made it. *)
Definition on_platform (p : Platform) (s : Summary) : Summary :=
  match outcome s, content s with
  | Ok _, Some data =>
      match encode p data with
      | Some bytes =>
          {| outcome := Ok tt; events := events s; content := Some bytes |}
      | None =>
          {| outcome := Raise UnicodeEncodeError;
             events := events s;
             content := Some "" |}
      end
  | _, _ => s
  end.

(** ** Answers that differ in nothing the script reads

    Two entries with the same text; two transcripts whose fetch and
    conversion end alike and give entries with the same texts; two listings
    that end alike, have as many elements and, when that is one, list
    transcripts with the same captions. *)
Definition same_text (x1 x2 : CaptionEntry) : Prop :=
  x1 !! "text" = x2 !! "text".

Definition same_captions (t1 t2 : Transcript) : Prop :=
  match fetch t1, fetch t2 with
  | Fails e1, Fails e2 => e1 = e2
  | Returns my_ts1, Returns my_ts2 =>
      match to_raw_data my_ts1, to_raw_data my_ts2 with
      | Fails e1, Fails e2 => e1 = e2
      | Returns l1, Returns l2 => Forall2 same_text l1 l2
      | _, _ => False
      end
  | _, _ => False
  end.

Definition same_listing (tl1 tl2 : LazySeq Transcript) : Prop :=
  seq_end tl1 = seq_end tl2
  /\ length (seq_items tl1) = length (seq_items tl2)
  /\ (forall t1 t2,
        seq_end tl1 = None ->
        seq_items tl1 = [t1] -> seq_items tl2 = [t2] ->
        same_captions t1 t2).

Definition same_answers (lib1 lib2 : Collaborator) : Prop :=
  match answers lib1, answers lib2 with
  | Fails e1, Fails e2 => e1 = e2
  | Returns (Fails e1), Returns (Fails e2) => e1 = e2
  | Returns (Returns tl1), Returns (Returns tl2) => same_listing tl1 tl2
  | _, _ => False
  end.


(** ** Sample collaborators *)

Definition entry (s : string) : CaptionEntry := {[ "text" := VStr s ]}.

Definition timed_entry (s : string) (start duration : Z) : CaptionEntry :=
  <[ "start" := VFloat start ]> (<[ "duration" := VFloat duration ]> (entry s)).

Definition track (lang : string) (entries : list CaptionEntry) : Transcript :=
  {| language_code := lang;
     fetch := Returns {| to_raw_data := Returns entries |} |}.

Definition library_with (answer : Response (LazySeq Transcript))
  : Collaborator :=
  {| YouTubeTranscriptApi := Returns {| api_list := fun _ => answer |} |}.

Definition hello_world : Collaborator :=
  library_with (Returns (lazy_of_list [track "en" [entry "Hello"; entry "world"]])).

Definition bilingual_tracks : list Transcript :=
  [track "en" [entry "Hello"; entry "world"]; track "de" [entry "Hallo"]].

Definition bilingual : Collaborator :=
  library_with (Returns (lazy_of_list bilingual_tracks)).

Definition no_captions : Collaborator := library_with (Returns (lazy_of_list [])).

(** The list call fails: captions are disabled. *)
Definition captions_disabled : Collaborator :=
  library_with (Fails NoTranscripts).

(** One transcript, whose fetch fails on the network. *)
Definition unreachable_track : Transcript :=
  {| language_code := "en"; fetch := Fails TransportFailure |}.

Definition fetch_blocked : Collaborator :=
  library_with (Returns (lazy_of_list [unreachable_track])).

(** One transcript with blank, empty and timed entries. *)
Definition spaced_entries : list CaptionEntry :=
  [entry "  a  b "; entry ""; timed_entry "c" 0 4611686018427387904].

Definition spaced_texts : list string := ["  a  b "; ""; "c"].

Definition spaced_track : Transcript := track "en" spaced_entries.

Definition spaced : Collaborator :=
  library_with (Returns (lazy_of_list [spaced_track])).

(** The same answers as [hello_world] to the script's video, and others
    elsewhere. *)
Definition hello_world_only : Collaborator :=
  {| YouTubeTranscriptApi := Returns {| api_list := fun video_id =>
       if String.eqb video_id VIDEO_ID
       then Returns (lazy_of_list [track "en" [entry "Hello"; entry "world"]])
       else Fails NotFound |} |}.

(** The texts of [hello_world], with start and duration beside them. *)
Definition hello_world_timed : Collaborator :=
  library_with (Returns (lazy_of_list
    [track "en-GB" [timed_entry "Hello" 0 4609434218613702656;
                    timed_entry "world" 4609434218613702656
                                        4611686018427387904]])).

(** One transcript whose second entry has no text. *)
Definition untexted_entries : list CaptionEntry :=
  [entry "Hello"; {[ "start" := VFloat 0 ]}; entry "world"].

Definition untexted : Collaborator :=
  library_with (Returns (lazy_of_list [track "en" untexted_entries])).

(** One transcript whose second text is a number. *)
Definition mistyped_entries : list CaptionEntry :=
  [entry "Hello"; {[ "text" := VFloat 0 ]}; entry "world"].

Definition mistyped : Collaborator :=
  library_with (Returns (lazy_of_list [track "en" mistyped_entries])).

(** ** Counting calls *)

Definition is_construct_call (ev : Event) : bool :=
  match ev with EvConstruct => true | _ => false end.

Definition is_list_call (ev : Event) : bool :=
  match ev with EvList _ => true | _ => false end.

Definition is_fetch_call (ev : Event) : bool :=
  match ev with EvFetch _ => true | _ => false end.

Definition is_conversion_call (ev : Event) : bool :=
  match ev with EvToRawData => true | _ => false end.

Definition is_open_call (ev : Event) : bool :=
  match ev with EvOpen _ => true | _ => false end.

Definition is_write_call (ev : Event) : bool :=
  match ev with EvWrite _ _ => true | _ => false end.

Definition is_close_call (ev : Event) : bool :=
  match ev with EvClose _ => true | _ => false end.

(** How many events of a kind a run made. *)
Definition calls (kind : Event -> bool) (evs : list Event) : nat :=
  length (List.filter kind evs).



Definition empty_world : World := {| fs := ∅; log := [] |}.

(** A world in which earlier runs left an output file. *)
Definition used_world : World :=
  {| fs := {[ OUTPUT_PATH := "left over from an earlier run" ]};
     log := [] |}.

Example hello_world_run :
  example hello_world empty_world =
  (Ok tt,
   {| fs := {[ OUTPUT_PATH := "Hello world" ]};
      log := [EvConstruct; EvList VIDEO_ID; EvNext; EvNext; EvFetch "en";
              EvToRawData; EvOpen OUTPUT_PATH;
              EvWrite OUTPUT_PATH "Hello world"; EvClose OUTPUT_PATH] |}).
Proof. vm_compute. reflexivity. Qed.

(** ** Strings *)

Lemma string_app_nil_r (s : string) : s +:+ "" = s.
Proof. induction s as [|a s IH]; [reflexivity|]. change (String a (s +:+ "") = String a s). by rewrite IH. Qed.

Lemma string_app_assoc (s1 s2 s3 : string) :
  (s1 +:+ s2) +:+ s3 = s1 +:+ (s2 +:+ s3).
Proof.
  induction s1 as [|a s1 IH]; [reflexivity|].
  change (String a ((s1 +:+ s2) +:+ s3) = String a (s1 +:+ (s2 +:+ s3))).
  by rewrite IH.
Qed.

Lemma string_app_length (s1 s2 : string) :
  String.length (s1 +:+ s2) = String.length s1 + String.length s2.
Proof.
  induction s1 as [|a s1 IH]; [reflexivity|].
  change (S (String.length (s1 +:+ s2)) = S (String.length s1 + String.length s2)).
  by rewrite IH.
Qed.

Lemma string_app_cons (a : Ascii.ascii) (s1 s2 : string) :
  String a s1 +:+ s2 = String a (s1 +:+ s2).
Proof. reflexivity. Qed.

Lemma substring_app_prefix (s1 s2 : string) :
  String.substring 0 (String.length s1) (s1 +:+ s2) = s1.
Proof.
  induction s1 as [|a s1 IH]; [by destruct s2|].
  rewrite string_app_cons. simpl. by rewrite IH.
Qed.

Lemma substring_app_skip (s1 s2 : string) (n m : nat) :
  String.substring (String.length s1 + n) m (s1 +:+ s2) = String.substring n m s2.
Proof.
  induction s1 as [|a s1 IH]; [reflexivity|].
  rewrite string_app_cons. simpl. apply IH.
Qed.

Lemma get_app_skip (s1 s2 : string) (n : nat) :
  String.get (String.length s1 + n) (s1 +:+ s2) = String.get n s2.
Proof.
  induction s1 as [|a s1 IH]; [reflexivity|].
  rewrite string_app_cons. simpl. apply IH.
Qed.

(** The copy loop only ever extends its accumulator. *)
Lemma join_from_acc (sep acc : string) (rest : list string) :
  join_from sep acc rest = acc +:+ join_from sep "" rest.
Proof.
  revert acc. induction rest as [|s rest IH]; intros acc; simpl.
  - by rewrite string_app_nil_r.
  - rewrite (IH (acc +:+ sep +:+ s)), (IH ("" +:+ sep +:+ s)).
    by rewrite !string_app_assoc.
Qed.

(** Joining a list that has a head and at least one more item. *)
Lemma join_strs_cons (sep s s' : string) (rest : list string) :
  join_strs sep (s :: s' :: rest) = s +:+ sep +:+ join_strs sep (s' :: rest).
Proof.
  simpl. rewrite (join_from_acc sep (s +:+ sep +:+ s')), (join_from_acc sep s').
  by rewrite !string_app_assoc.
Qed.

(** The loop agrees with the recursive reading of a join. *)
Lemma join_strs_concat (sep : string) (items : list string) :
  join_strs sep items = String.concat sep items.
Proof.
  induction items as [|s [|s' rest] IH]; [reflexivity..|].
  rewrite join_strs_cons, IH. reflexivity.
Qed.

(** A join has the characters of its items and one separator for each
    boundary between neighbours. *)
Lemma join_strs_length (sep : string) (items : list string) :
  String.length (join_strs sep items) =
  sum_list (String.length <$> items) + (length items - 1) * String.length sep.
Proof.
  induction items as [|s [|s' rest] IH]; [reflexivity| simpl; lia |].
  rewrite join_strs_cons, !string_app_length, IH.
  simpl. lia.
Qed.

(** A join splits at every boundary into the joins of the two sides, with
    one separator in between. *)
Lemma join_strs_app (sep : string) (l1 l2 : list string) :
  l1 <> [] -> l2 <> [] ->
  join_strs sep (l1 ++ l2)%list = join_strs sep l1 +:+ sep +:+ join_strs sep l2.
Proof.
  intros H1 H2. induction l1 as [|s [|s' l1] IH]; [done| |].
  - destruct l2 as [|s2 l2]; [done|]. apply join_strs_cons.
  - change ((s :: s' :: l1) ++ l2)%list with (s :: s' :: (l1 ++ l2))%list.
    rewrite !join_strs_cons.
    change (s' :: l1 ++ l2)%list with ((s' :: l1) ++ l2)%list.
    rewrite IH by done. by rewrite !string_app_assoc.
Qed.

(** ** Running the primitives *)

Lemma record_record (w : World) (evs evs' : list Event) :
  record (record w evs) evs' = record w (evs ++ evs').
Proof. unfold record; simpl. by rewrite <- app_assoc. Qed.

Lemma call_returns {A : Type} (ev : Event) (a : A) (w : World) :
  call ev (Returns a) w = (Ok a, record w [ev]).
Proof. reflexivity. Qed.

Lemma call_fails {A : Type} (ev : Event) (e : failure) (w : World) :
  call (A := A) ev (Fails e) w = (Raise (CollaboratorError e), record w [ev]).
Proof. reflexivity. Qed.

(** The list comprehension calls [__next__] once for every element and once
    more to learn that the sequence has stopped. *)
Lemma materialize_run {A : Type} (it : LazySeq A) (w : World) :
  materialize it w =
  (match seq_end it with
   | None => Ok (seq_items it)
   | Some e => Raise (CollaboratorError e)
   end,
   record w (replicate (S (length (seq_items it))) EvNext)).
Proof.
  revert w. induction it as [|x rest IH|e]; intros w; [reflexivity| |reflexivity].
  change (materialize (Yield x rest) w) with
    (match materialize rest (record w [EvNext]) with
     | (Ok xs, w') => (Ok (x :: xs), w')
     | (Raise e, w') => (Raise e, w')
     end).
  rewrite IH, record_record. simpl. by destruct (seq_end rest).
Qed.

Lemma seq_items_of_list {A : Type} (xs : list A) :
  seq_items (lazy_of_list xs) = xs.
Proof. induction xs as [|x xs IH]; simpl; [done | by rewrite IH]. Qed.

Lemma seq_end_of_list {A : Type} (xs : list A) :
  seq_end (lazy_of_list xs) = None.
Proof. induction xs as [|x xs IH]; simpl; done. Qed.

Lemma list_response_returns (lib : Collaborator) (tl : LazySeq Transcript) :
  list_response lib = Returns tl ->
  exists ytt_api, YouTubeTranscriptApi lib = Returns ytt_api
                  /\ api_list ytt_api VIDEO_ID = Returns tl.
Proof.
  unfold list_response. destruct (YouTubeTranscriptApi lib) as [api|e]; [|done].
  intros H. by exists api.
Qed.

(** ** Selection *)

Lemma select_singleton (t : Transcript) : select [t] = Ok (Some t).
Proof. reflexivity. Qed.

Lemma select_other (ts : list Transcript) :
  length ts <> 1 -> select ts = Ok None.
Proof.
  intros H. unfold select.
  destruct (Nat.eqb_spec (length ts) 1) as [E|E]; [done | reflexivity].
Qed.

Lemma length_one {A : Type} (l : list A) :
  length l = 1 -> exists x, l = [x].
Proof. destruct l as [|x [|y l]]; intros H; simplify_eq/=. by exists x. Qed.

(** ** Running the script *)

Lemma text_fields_has_text (entries : list CaptionEntry) (texts : list string) :
  Forall2 has_text entries texts ->
  text_fields entries = Ok (VStr <$> texts).
Proof.
  induction 1 as [|x s entries texts Hx _ IH]; [reflexivity|].
  simpl. unfold dict_getitem. rewrite Hx, IH. reflexivity.
Qed.

Lemma str_items_strs (i : nat) (texts : list string) :
  str_items i (VStr <$> texts) = Ok texts.
Proof.
  revert i. induction texts as [|s texts IH]; intros i; [reflexivity|].
  simpl. by rewrite IH.
Qed.

Lemma written_text_has_text (entries : list CaptionEntry) (texts : list string) :
  Forall2 has_text entries texts ->
  written_text entries = Ok (String.concat " " texts).
Proof.
  intros H. unfold written_text, str_join.
  rewrite (text_fields_has_text _ _ H), str_items_strs.
  by rewrite join_strs_concat.
Qed.

(** The block under [with] leaves in the file what [written_text] computes,
    or the empty file that [open] made when the computation raises. *)
Lemma with_block_run (my_ts_l : list CaptionEntry) (w : World) :
  with_open_w OUTPUT_PATH (fun f =>
    texts <- eval (text_fields my_ts_l) ;;
    joined <- eval (str_join " " texts) ;;
    file_write f joined) w =
  match written_text my_ts_l with
  | Ok data =>
      (Ok tt, {| fs := <[OUTPUT_PATH := data]> (fs w);
                 log := log w ++ [EvOpen OUTPUT_PATH;
                                  EvWrite OUTPUT_PATH data;
                                  EvClose OUTPUT_PATH] |})
  | Raise e =>
      (Raise e, {| fs := <[OUTPUT_PATH := ""]> (fs w);
                   log := log w ++ [EvOpen OUTPUT_PATH;
                                    EvClose OUTPUT_PATH] |})
  end.
Proof.
  unfold with_open_w, written_text, bind, open_w, eval, file_write, file_close,
    emit, record.
  destruct (text_fields my_ts_l) as [texts|e]; simpl.
  - destruct (str_join " " texts) as [data|e]; simpl.
    + rewrite lookup_insert_eq, insert_insert_eq, <- !app_assoc. reflexivity.
    + rewrite <- !app_assoc. reflexivity.
  - rewrite <- !app_assoc. reflexivity.
Qed.

Lemma save_run (t : Transcript) (w : World) :
  save t w = apply_summary (save_summary t) w.
Proof.
  unfold save, save_summary, apply_summary, bind at 1.
  destruct (fetch t) as [my_ts|e]; [|reflexivity].
  rewrite call_returns. unfold bind at 1.
  destruct (to_raw_data my_ts) as [my_ts_l|e]; [|by rewrite call_fails, record_record].
  rewrite call_returns, record_record, with_block_run.
  destruct (written_text my_ts_l) as [data|e]; simpl; rewrite <- !app_assoc; reflexivity.
Qed.

Lemma process_run (ts : list Transcript) (w : World) :
  process ts w = apply_summary (process_summary ts) w.
Proof.
  destruct ts as [|t [|t' ts]].
  - unfold apply_summary; simpl. by rewrite app_nil_r; destruct w.
  - change (process [t] w) with (save t w). apply save_run.
  - unfold apply_summary; simpl. by rewrite app_nil_r; destruct w.
Qed.

Lemma apply_after (evs : list Event) (s : Summary) (w : World) :
  apply_summary s (record w evs) = apply_summary (after evs s) w.
Proof. unfold apply_summary, after, record; simpl. by rewrite <- app_assoc. Qed.

(** The script does to any world what its summary says. *)
Lemma example_run (lib : Collaborator) (w : World) :
  example lib w = apply_summary (example_summary lib) w.
Proof.
  unfold example, example_summary, bind at 1.
  destruct (YouTubeTranscriptApi lib) as [ytt_api|e]; [|reflexivity].
  rewrite call_returns. unfold bind at 1.
  destruct (api_list ytt_api VIDEO_ID) as [tl|e];
    [|by rewrite call_fails, record_record].
  rewrite call_returns, record_record. unfold bind at 1.
  rewrite materialize_run, record_record.
  destruct (seq_end tl) as [e|]; [reflexivity|].
  rewrite process_run. apply apply_after.
Qed.

Lemma summary_listed (lib : Collaborator) (ts : list Transcript) :
  list_response lib = Returns (lazy_of_list ts) ->
  example_summary lib = after (listing_events (length ts)) (process_summary ts).
Proof.
  intros (api & Hapi & Hl)%list_response_returns.
  unfold example_summary.
  by rewrite Hapi, Hl, seq_end_of_list, seq_items_of_list.
Qed.

Lemma process_summary_other (ts : list Transcript) :
  length ts <> 1 ->
  process_summary ts = {| outcome := Ok tt; events := []; content := None |}.
Proof. by destruct ts as [|t [|t' ts]]. Qed.

Lemma new_events_apply (s : Summary) (w : World) :
  new_events w (snd (apply_summary s w)) = events s.
Proof. unfold new_events, apply_summary; simpl. apply drop_app_length. Qed.

Lemma save_summary_returns (t : Transcript) (my_ts : FetchedTranscript)
    (my_ts_l : list CaptionEntry) (data : string) :
  fetch t = Returns my_ts ->
  to_raw_data my_ts = Returns my_ts_l ->
  written_text my_ts_l = Ok data ->
  save_summary t = {| outcome := Ok tt;
                      events := saving_events (language_code t) data;
                      content := Some data |}.
Proof. intros Hf Hr Hw. unfold save_summary. by rewrite Hf, Hr, Hw. Qed.

(** A run over a single transcript whose entries all carry a text. *)
Lemma example_writes (lib : Collaborator) (t : Transcript)
    (my_ts : FetchedTranscript) (my_ts_l : list CaptionEntry)
    (texts : list string) (w : World) :
  list_response lib = Returns (lazy_of_list [t]) ->
  fetch t = Returns my_ts ->
  to_raw_data my_ts = Returns my_ts_l ->
  Forall2 has_text my_ts_l texts ->
  example lib w =
  (Ok tt,
   {| fs := <[OUTPUT_PATH := String.concat " " texts]> (fs w);
      log := log w ++ listing_events 1
                   ++ saving_events (language_code t) (String.concat " " texts) |}).
Proof.
  intros Hlist Hf Hr Ht.
  rewrite example_run, (summary_listed lib [t] Hlist).
  simpl process_summary.
  rewrite (save_summary_returns t my_ts my_ts_l _ Hf Hr
             (written_text_has_text _ _ Ht)).
  reflexivity.
Qed.

(** ** Where the texts sit in the joined string *)

Lemma concat_cons (sep s s' : string) (rest : list string) :
  String.concat sep (s :: s' :: rest) =
  s +:+ sep +:+ String.concat sep (s' :: rest).
Proof. reflexivity. Qed.

Lemma offset_0 (texts : list string) : offset texts 0 = 0.
Proof. unfold offset. by rewrite take_0. Qed.

Lemma offset_S (s : string) (texts : list string) (i : nat) :
  offset (s :: texts) (S i) = String.length s + (1 + offset texts i).
Proof.
  unfold offset. change (take (S i) (s :: texts)) with (s :: take i texts).
  rewrite fmap_cons. simpl sum_list. lia.
Qed.

(** Every text is found, character for character, at its offset. *)
Lemma concat_verbatim (texts : list string) (i : nat) (s : string) :
  texts !! i = Some s ->
  String.substring (offset texts i) (String.length s) (String.concat " " texts)
  = s.
Proof.
  revert i. induction texts as [|s0 [|s1 rest] IH]; intros i Hi; [done| |].
  - destruct i as [|i]; [|done]. injection Hi as ->.
    rewrite offset_0. simpl String.concat.
    rewrite <- (string_app_nil_r s) at 2. apply substring_app_prefix.
  - rewrite concat_cons. destruct i as [|i].
    + injection Hi as ->. rewrite offset_0. apply substring_app_prefix.
    + rewrite offset_S, substring_app_skip.
      rewrite (substring_app_skip " " _ (offset (s1 :: rest) i)).
      by apply IH.
Qed.

(** Every text but the last is followed by one space, and the next text
    starts right after it. *)
Lemma concat_boundary (texts : list string) (i : nat) (s : string) :
  texts !! i = Some s ->
  S i < length texts ->
  String.get (offset texts i + String.length s) (String.concat " " texts)
  = Some " "%char
  /\ offset texts (S i) = offset texts i + String.length s + 1.
Proof.
  revert i. induction texts as [|s0 [|s1 rest] IH]; intros i Hi Hlt;
    [done | simpl in Hlt; lia |].
  rewrite concat_cons. destruct i as [|i].
  - injection Hi as ->. rewrite offset_S, !offset_0. split; [|lia].
    replace (0 + String.length s) with (String.length s + 0) by lia.
    by rewrite get_app_skip.
  - destruct (IH i Hi) as [Hget Hoff]; [simpl in *; lia|].
    rewrite (offset_S s0 (s1 :: rest) (S i)), (offset_S s0 (s1 :: rest) i), Hoff.
    split; [|lia].
    replace (String.length s0 + (1 + offset (s1 :: rest) i) + String.length s)
      with (String.length s0 + (1 + (offset (s1 :: rest) i + String.length s)))
      by lia.
    rewrite get_app_skip.
    by rewrite (get_app_skip " " _ (offset (s1 :: rest) i + String.length s)).
Qed.

Lemma concat_length (texts : list string) :
  String.length (String.concat " " texts) =
  sum_list (String.length <$> texts) + (length texts - 1).
Proof.
  rewrite <- join_strs_concat, join_strs_length. simpl. lia.
Qed.

(** ** Facts about summaries *)

Lemma overwrite_idem (c : option string) (files : gmap string string) :
  overwrite c (overwrite c files) = overwrite c files.
Proof. destruct c as [data|]; [apply insert_insert_eq | reflexivity]. Qed.

Lemma count_next_replicate (n : nat) :
  count_occ Event_eq_dec (replicate n EvNext) EvNext = n.
Proof. induction n as [|n IH]; [reflexivity|]. simpl. by rewrite IH. Qed.

Lemma count_next_listing (n : nat) :
  count_occ Event_eq_dec (listing_events n) EvNext = S n.
Proof.
  unfold listing_events. rewrite count_occ_app, count_next_replicate.
  reflexivity.
Qed.

Lemma count_next_save (t : Transcript) :
  count_occ Event_eq_dec (events (save_summary t)) EvNext = 0.
Proof.
  unfold save_summary.
  destruct (fetch t) as [my_ts|e]; [|reflexivity].
  destruct (to_raw_data my_ts) as [my_ts_l|e]; [|reflexivity].
  destruct (written_text my_ts_l); reflexivity.
Qed.

Lemma count_next_process (ts : list Transcript) :
  count_occ Event_eq_dec (events (process_summary ts)) EvNext = 0.
Proof. destruct ts as [|t [|t' ts]]; [reflexivity | apply count_next_save | reflexivity]. Qed.

Lemma no_file_event_listing (n : nat) :
  Forall (fun ev => touches_file ev = false) (listing_events n).
Proof.
  unfold listing_events. apply Forall_app. split.
  - repeat constructor.
  - by apply Forall_replicate.
Qed.

(** The script's own operations past the selection raise a [KeyError] or a
    [TypeError], nothing else. *)
Lemma text_fields_raise (my_ts_l : list CaptionEntry) (e : exn) :
  text_fields my_ts_l = Raise e -> e = KeyError "text".
Proof.
  induction my_ts_l as [|x rest IH]; simpl; [done|].
  unfold dict_getitem. destruct (x !! "text") as [v|]; [|by intros [= <-]].
  destruct (text_fields rest) as [vs|e']; [done|].
  intros [= <-]. by apply IH.
Qed.

Lemma str_items_raise (i : nat) (items : list value) (e : exn) :
  str_items i items = Raise e -> exists j, e = TypeError j.
Proof.
  revert i. induction items as [|[s|bits] rest IH]; intros i; simpl; [done| |].
  - destruct (str_items (S i) rest) as [ss|e'] eqn:E; [done|].
    intros [= <-]. by apply (IH (S i)).
  - intros [= <-]. by exists i.
Qed.

Lemma written_text_raise (my_ts_l : list CaptionEntry) (e : exn) :
  written_text my_ts_l = Raise e -> e <> IndexError.
Proof.
  unfold written_text, str_join.
  destruct (text_fields my_ts_l) as [texts|e'] eqn:Et.
  - destruct (str_items 0 texts) as [ss|e'] eqn:Es; [done|].
    intros [= <-]. by destruct (str_items_raise _ _ _ Es) as [j ->].
  - intros [= <-]. by rewrite (text_fields_raise _ _ Et).
Qed.

Lemma save_never_index_error (t : Transcript) :
  outcome (save_summary t) <> Raise IndexError.
Proof.
  unfold save_summary.
  destruct (fetch t) as [my_ts|e]; [|done].
  destruct (to_raw_data my_ts) as [my_ts_l|e]; [|done].
  destruct (written_text my_ts_l) as [data|e] eqn:E; [done|].
  simpl. intros [= ->]. by apply (written_text_raise _ _ E).
Qed.

Lemma example_never_index_error (lib : Collaborator) :
  outcome (example_summary lib) <> Raise IndexError.
Proof.
  unfold example_summary.
  destruct (YouTubeTranscriptApi lib) as [ytt_api|e]; [|done].
  destruct (api_list ytt_api VIDEO_ID) as [tl|e]; [|done].
  destruct (seq_end tl) as [e|]; [done|].
  destruct (seq_items tl) as [|t [|t' ts]]; [done| |done].
  apply save_never_index_error.
Qed.

(** The file is opened by [save] only, and there only once the fetch and
    the conversion have returned. *)
Lemma save_opens (t : Transcript) (path : string) :
  In (EvOpen path) (events (save_summary t)) ->
  exists my_ts my_ts_l,
    fetch t = Returns my_ts /\ to_raw_data my_ts = Returns my_ts_l.
Proof.
  unfold save_summary.
  destruct (fetch t) as [my_ts|e]; [|simpl; intros [|[]]; done].
  destruct (to_raw_data my_ts) as [my_ts_l|e] eqn:Hraw;
    [|simpl; intros [|[|[]]]; done].
  intros _. by exists my_ts, my_ts_l.
Qed.

Lemma listing_never_opens (n : nat) (path : string) :
  ~ In (EvOpen path) (listing_events n).
Proof.
  intros H. pose proof (no_file_event_listing n) as Hall.
  rewrite List.Forall_forall in Hall. by specialize (Hall _ H).
Qed.

Lemma example_opens (lib : Collaborator) (path : string) :
  In (EvOpen path) (events (example_summary lib)) ->
  exists tl t my_ts my_ts_l,
    list_response lib = Returns tl
    /\ seq_end tl = None
    /\ seq_items tl = [t]
    /\ fetch t = Returns my_ts
    /\ to_raw_data my_ts = Returns my_ts_l.
Proof.
  unfold example_summary, list_response.
  destruct (YouTubeTranscriptApi lib) as [ytt_api|e];
    [|simpl; intros [|[]]; done].
  destruct (api_list ytt_api VIDEO_ID) as [tl|e];
    [|simpl; intros [|[|[]]]; done].
  destruct (seq_end tl) as [e|] eqn:He.
  { intros H. by apply listing_never_opens in H. }
  unfold after; cbn [events]. intros H. apply in_app_or in H as [H|H].
  { by apply listing_never_opens in H. }
  destruct (seq_items tl) as [|t [|t' ts]] eqn:Hi; [destruct H| |destruct H].
  apply save_opens in H as (my_ts & my_ts_l & Hf & Hr).
  by exists tl, t, my_ts, my_ts_l.
Qed.

Lemma fetch_failure_run (lib : Collaborator) (t : Transcript)
    (e : failure) (w : World) :
  list_response lib = Returns (lazy_of_list [t]) ->
  fetch t = Fails e ->
  example lib w =
  (Raise (CollaboratorError e),
   record w (listing_events 1 ++ [EvFetch (language_code t)])).
Proof.
  intros Hl Hf. rewrite example_run, (summary_listed lib [t] Hl).
  simpl process_summary. unfold save_summary. by rewrite Hf.
Qed.

Lemma conversion_failure_run (lib : Collaborator) (t : Transcript)
    (my_ts : FetchedTranscript) (e : failure) (w : World) :
  list_response lib = Returns (lazy_of_list [t]) ->
  fetch t = Returns my_ts ->
  to_raw_data my_ts = Fails e ->
  example lib w =
  (Raise (CollaboratorError e),
   record w (listing_events 1 ++ [EvFetch (language_code t); EvToRawData])).
Proof.
  intros Hl Hf Hr. rewrite example_run, (summary_listed lib [t] Hl).
  simpl process_summary. unfold save_summary. by rewrite Hf, Hr.
Qed.

(** ** Further observations *)

(** X5. A second run never changes what the first one left in the files,
    whatever the collaborator answers and however the first run ended
    (normally, with a library failure, or inside the [with] block). *)
Lemma rerun_same_files (lib : Collaborator) (w : World) :
  fs (snd (example lib (snd (example lib w)))) = fs (snd (example lib w)).
Proof. rewrite !example_run. simpl. apply overwrite_idem. Qed.

(** The text is extracted and joined inside the [with] block, after [open]
    has truncated the file: an entry without a text, or with a text that is
    not a [str], ends the run with the exception and leaves the output file
    empty. *)
Lemma extraction_failure_run (lib : Collaborator) (t : Transcript)
    (my_ts : FetchedTranscript) (my_ts_l : list CaptionEntry) (e : exn)
    (w : World) :
  list_response lib = Returns (lazy_of_list [t]) ->
  fetch t = Returns my_ts ->
  to_raw_data my_ts = Returns my_ts_l ->
  written_text my_ts_l = Raise e ->
  example lib w =
  (Raise e,
   {| fs := <[OUTPUT_PATH := ""]> (fs w);
      log := log w ++ listing_events 1
                   ++ [EvFetch (language_code t); EvToRawData;
                       EvOpen OUTPUT_PATH; EvClose OUTPUT_PATH] |}).
Proof.
  intros Hl Hf Hr He. rewrite example_run, (summary_listed lib [t] Hl).
  simpl process_summary. unfold save_summary. by rewrite Hf, Hr, He.
Qed.

Example untexted_entry_run :
  example (library_with (Returns (lazy_of_list
             [track "en" [entry "Hello"; {[ "start" := VFloat 0 ]}]])))
          used_world
  = (Raise (KeyError "text"),
     {| fs := {[ OUTPUT_PATH := "" ]};
        log := listing_events 1
               ++ [EvFetch "en"; EvToRawData;
                   EvOpen OUTPUT_PATH; EvClose OUTPUT_PATH] |}).
Proof. vm_compute. reflexivity. Qed.

(** X7. What is written depends on the entries through their texts only:
    two runs over single transcripts whose entries carry the same texts
    leave the same content in the output file, whatever the language of the
    transcripts, the other fields of the entries (start, duration) and the
    worlds the runs start from. *)
Lemma output_ignores_other_fields (lib1 lib2 : Collaborator)
    (t1 t2 : Transcript) (my_ts1 my_ts2 : FetchedTranscript)
    (l1 l2 : list CaptionEntry) (texts : list string) (w1 w2 : World) :
  list_response lib1 = Returns (lazy_of_list [t1]) ->
  list_response lib2 = Returns (lazy_of_list [t2]) ->
  fetch t1 = Returns my_ts1 -> to_raw_data my_ts1 = Returns l1 ->
  fetch t2 = Returns my_ts2 -> to_raw_data my_ts2 = Returns l2 ->
  Forall2 has_text l1 texts ->
  Forall2 has_text l2 texts ->
  fs (snd (example lib1 w1)) !! OUTPUT_PATH
  = fs (snd (example lib2 w2)) !! OUTPUT_PATH.
Proof.
  intros Hl1 Hl2 Hf1 Hr1 Hf2 Hr2 Ht1 Ht2.
  rewrite (example_writes lib1 t1 my_ts1 l1 texts w1 Hl1 Hf1 Hr1 Ht1).
  rewrite (example_writes lib2 t2 my_ts2 l2 texts w2 Hl2 Hf2 Hr2 Ht2).
  simpl. by rewrite !lookup_insert_eq.
Qed.

Lemma output_ignores_other_fields_witness :
  list_response hello_world
    = Returns (lazy_of_list [track "en" [entry "Hello"; entry "world"]])
  /\ Forall2 has_text [entry "Hello"; entry "world"] ["Hello"; "world"]
  /\ Forall2 has_text
       [timed_entry "Hello" 0 4609434218613702656;
        timed_entry "world" 4609434218613702656 4611686018427387904]
       ["Hello"; "world"]
  /\ fs (snd (example hello_world empty_world)) !! OUTPUT_PATH
     = fs (snd (example hello_world_timed used_world)) !! OUTPUT_PATH.
Proof.
  assert (H1 : Forall2 has_text [entry "Hello"; entry "world"]
                                ["Hello"; "world"])
    by (repeat constructor; reflexivity).
  assert (H2 : Forall2 has_text
                 [timed_entry "Hello" 0 4609434218613702656;
                  timed_entry "world" 4609434218613702656 4611686018427387904]
                 ["Hello"; "world"])
    by (repeat constructor; reflexivity).
  split; [reflexivity|].
  split; [exact H1|].
  split; [exact H2|].
  exact (output_ignores_other_fields hello_world hello_world_timed
           (track "en" [entry "Hello"; entry "world"])
           (track "en-GB"
              [timed_entry "Hello" 0 4609434218613702656;
               timed_entry "world" 4609434218613702656 4611686018427387904])
           {| to_raw_data := Returns [entry "Hello"; entry "world"] |}
           {| to_raw_data := Returns
                [timed_entry "Hello" 0 4609434218613702656;
                 timed_entry "world" 4609434218613702656
                                     4611686018427387904] |}
           _ _ ["Hello"; "world"] empty_world used_world
           eq_refl eq_refl eq_refl eq_refl eq_refl eq_refl H1 H2).
Defined.

Example no_captions_run :
  example no_captions used_world
  = (Ok tt, record used_world [EvConstruct; EvList VIDEO_ID; EvNext]).
Proof. vm_compute. reflexivity. Qed.

(** ** Running on a platform *)

Lemma with_block_on_run (p : Platform) (my_ts_l : list CaptionEntry)
    (w : World) :
  with_open_w OUTPUT_PATH (fun f =>
    texts <- eval (text_fields my_ts_l) ;;
    joined <- eval (str_join " " texts) ;;
    file_write_on p f joined) w =
  match written_text my_ts_l with
  | Ok data =>
      match encode p data with
      | Some bytes =>
          (Ok tt, {| fs := <[OUTPUT_PATH := bytes]> (fs w);
                     log := log w ++ [EvOpen OUTPUT_PATH;
                                      EvWrite OUTPUT_PATH data;
                                      EvClose OUTPUT_PATH] |})
      | None =>
          (Raise UnicodeEncodeError,
           {| fs := <[OUTPUT_PATH := ""]> (fs w);
              log := log w ++ [EvOpen OUTPUT_PATH;
                               EvWrite OUTPUT_PATH data;
                               EvClose OUTPUT_PATH] |})
      end
  | Raise e =>
      (Raise e, {| fs := <[OUTPUT_PATH := ""]> (fs w);
                   log := log w ++ [EvOpen OUTPUT_PATH;
                                    EvClose OUTPUT_PATH] |})
  end.
Proof.
  unfold with_open_w, written_text, bind, open_w, eval, file_write_on,
    file_close, emit, record.
  destruct (text_fields my_ts_l) as [texts|e]; simpl.
  - destruct (str_join " " texts) as [data|e]; simpl.
    + destruct (encode p data) as [bytes|]; simpl.
      * rewrite lookup_insert_eq, insert_insert_eq, <- !app_assoc. reflexivity.
      * rewrite <- !app_assoc. reflexivity.
    + rewrite <- !app_assoc. reflexivity.
  - rewrite <- !app_assoc. reflexivity.
Qed.

Lemma save_on_run (p : Platform) (t : Transcript) (w : World) :
  save_on p t w = apply_summary (on_platform p (save_summary t)) w.
Proof.
  unfold save_on, save_summary, apply_summary, bind at 1.
  destruct (fetch t) as [my_ts|e]; [|reflexivity].
  rewrite call_returns. unfold bind at 1.
  destruct (to_raw_data my_ts) as [my_ts_l|e];
    [|by rewrite call_fails, record_record].
  rewrite call_returns, record_record, with_block_on_run.
  destruct (written_text my_ts_l) as [data|e]; unfold on_platform; simpl.
  - destruct (encode p data) as [bytes|]; simpl; rewrite <- !app_assoc;
      reflexivity.
  - rewrite <- !app_assoc. reflexivity.
Qed.

Lemma process_on_run (p : Platform) (ts : list Transcript) (w : World) :
  process_on p ts w = apply_summary (on_platform p (process_summary ts)) w.
Proof.
  destruct ts as [|t [|t' ts]].
  - unfold apply_summary; simpl. by rewrite app_nil_r; destruct w.
  - change (process_on p [t] w) with (save_on p t w). apply save_on_run.
  - unfold apply_summary; simpl. by rewrite app_nil_r; destruct w.
Qed.

Lemma on_platform_after (p : Platform) (evs : list Event) (s : Summary) :
  on_platform p (after evs s) = after evs (on_platform p s).
Proof.
  destruct s as [[u|e] evs' [data|]]; unfold on_platform, after; simpl;
    try reflexivity.
  by destruct (encode p data).
Qed.

(** The script on a platform does to any world what its summary says. *)
Lemma example_on_run (p : Platform) (lib : Collaborator) (w : World) :
  example_on p lib w = apply_summary (on_platform p (example_summary lib)) w.
Proof.
  unfold example_on, example_summary, bind at 1.
  destruct (YouTubeTranscriptApi lib) as [ytt_api|e]; [|reflexivity].
  rewrite call_returns. unfold bind at 1.
  destruct (api_list ytt_api VIDEO_ID) as [tl|e];
    [|by rewrite call_fails, record_record].
  rewrite call_returns, record_record. unfold bind at 1.
  rewrite materialize_run, record_record.
  destruct (seq_end tl) as [e|]; [reflexivity|].
  rewrite process_on_run, on_platform_after. apply apply_after.
Qed.

(** Under a codec that stores the text as it is, the script on a platform
    is the script at the level of text. *)
Lemma example_on_latin_1 (lib : Collaborator) (w : World) :
  example_on latin_1 lib w = example lib w.
Proof.
  rewrite example_on_run, example_run. f_equal.
  by destruct (example_summary lib) as [[[]|e] evs [data|]].
Qed.


(** ** Answers with the same texts *)


Lemma same_text_refl (l : list CaptionEntry) : Forall2 same_text l l.
Proof. induction l; by constructor. Qed.

Lemma same_captions_refl (t : Transcript) : same_captions t t.
Proof.
  unfold same_captions. destruct (fetch t) as [my_ts|e]; [|reflexivity].
  destruct (to_raw_data my_ts) as [l|e]; [apply same_text_refl | reflexivity].
Qed.

(** Equal answers are, in particular, answers with the same texts. *)
Lemma answers_same (lib1 lib2 : Collaborator) :
  answers lib1 = answers lib2 -> same_answers lib1 lib2.
Proof.
  unfold same_answers. intros <-.
  destruct (answers lib1) as [[tl|e]|e]; [|reflexivity..].
  repeat split. intros t1 t2 _ H1 H2. rewrite H1 in H2. injection H2 as <-.
  apply same_captions_refl.
Qed.





(** * The properties *)

(** C1. Selection rule: for every materialized transcript collection the
    script selects a transcript if and only if the collection has exactly
    one element, and the selected one is the first; with exactly one
    element the run goes on with fetching that transcript; with zero or
    with two or more elements nothing is selected and the run ends there,
    normally, having logged the listing calls only and leaving every file
    as it was (no fetch, no join, no write). *)
Theorem selection_rule (lib : Collaborator) (ts : list Transcript) (w : World)
    (Hlist : list_response lib = Returns (lazy_of_list ts)) :
  ((exists t, select ts = Ok (Some t)) <-> length ts = 1)
  /\ (forall t, select ts = Ok (Some t) ->
        head ts = Some t
        /\ example lib w = save t (record w (listing_events 1)))
  /\ (length ts <> 1 ->
        select ts = Ok None
        /\ example lib w = (Ok tt, record w (listing_events (length ts)))).
Proof.
  split; [|split].
  - split.
    + intros [t Ht]. destruct (decide (length ts = 1)) as [|Hne]; [done|].
      rewrite (select_other ts Hne) in Ht. discriminate.
    + intros [t ->]%length_one. by exists t.
  - intros t Ht.
    destruct (decide (length ts = 1)) as [[t' ->]%length_one|Hne].
    + rewrite select_singleton in Ht. injection Ht as ->.
      split; [reflexivity|].
      rewrite example_run, (summary_listed lib [t] Hlist), <- apply_after.
      symmetry. apply save_run.
    + rewrite (select_other ts Hne) in Ht. discriminate.
  - intros Hne. split; [by apply select_other|].
    rewrite example_run, (summary_listed lib ts Hlist).
    rewrite (process_summary_other ts Hne).
    unfold apply_summary, after, record; simpl. by rewrite app_nil_r.
Qed.

Lemma selection_rule_witness :
  list_response bilingual = Returns (lazy_of_list bilingual_tracks)
  /\ ((exists t, select bilingual_tracks = Ok (Some t))
       <-> length bilingual_tracks = 1)
  /\ (forall t, select bilingual_tracks = Ok (Some t) ->
        head bilingual_tracks = Some t
        /\ example bilingual empty_world
           = save t (record empty_world (listing_events 1)))
  /\ (length bilingual_tracks <> 1 ->
        select bilingual_tracks = Ok None
        /\ example bilingual empty_world
           = (Ok tt, record empty_world
                       (listing_events (length bilingual_tracks)))).
Proof.
  split; [reflexivity|].
  exact (selection_rule bilingual bilingual_tracks empty_world eq_refl).
Defined.

(** C2. Single-transcript case: when the video has exactly one transcript
    and its fetched caption entries are two entries with the texts "Hello"
    and "world", the run ends normally, has written the output file, and
    the content of the file is exactly "Hello world", whatever the file
    held before. *)
Theorem hello_world_written (lib : Collaborator) (t : Transcript)
    (my_ts : FetchedTranscript) (x1 x2 : CaptionEntry) (w : World)
    (Hlist : list_response lib = Returns (lazy_of_list [t]))
    (Hfetch : fetch t = Returns my_ts)
    (Hraw : to_raw_data my_ts = Returns [x1; x2])
    (H1 : has_text x1 "Hello")
    (H2 : has_text x2 "world") :
  example lib w =
    (Ok tt,
     {| fs := <[OUTPUT_PATH := "Hello world"]> (fs w);
        log := log w ++ listing_events 1
                     ++ saving_events (language_code t) "Hello world" |})
  /\ fs (snd (example lib w)) !! OUTPUT_PATH = Some "Hello world".
Proof.
  assert (Ht : Forall2 has_text [x1; x2] ["Hello"; "world"])
    by (repeat constructor; assumption).
  rewrite (example_writes lib t my_ts _ _ w Hlist Hfetch Hraw Ht).
  split; [reflexivity|]. simpl. apply lookup_insert_eq.
Qed.

Lemma hello_world_written_witness :
  list_response hello_world
    = Returns (lazy_of_list [track "en" [entry "Hello"; entry "world"]])
  /\ has_text (entry "Hello") "Hello"
  /\ has_text (entry "world") "world"
  /\ fs (snd (example hello_world used_world)) !! OUTPUT_PATH
     = Some "Hello world".
Proof.
  repeat (split; [reflexivity|]).
  exact (proj2 (hello_world_written hello_world
                  (track "en" [entry "Hello"; entry "world"])
                  {| to_raw_data := Returns [entry "Hello"; entry "world"] |}
                  (entry "Hello") (entry "world") used_world
                  eq_refl eq_refl eq_refl eq_refl eq_refl)).
Defined.

(** C3. Zero- and multi-transcript cases: when the list call returns and
    the transcript collection has length zero or length two or more, the
    run ends normally, every path of the file system holds what it held
    before (the output file is neither created nor modified), and none of
    the events of the run is a file operation. *)
Theorem no_write_unless_singleton (lib : Collaborator) (ts : list Transcript)
    (w : World)
    (Hlist : list_response lib = Returns (lazy_of_list ts))
    (Hlen : length ts <> 1) :
  fst (example lib w) = Ok tt
  /\ fs (snd (example lib w)) = fs w
  /\ Forall (fun ev => touches_file ev = false)
            (new_events w (snd (example lib w))).
Proof.
  rewrite example_run, new_events_apply, (summary_listed lib ts Hlist).
  rewrite (process_summary_other ts Hlen). unfold after, apply_summary; simpl.
  repeat split. rewrite app_nil_r.
  repeat constructor. apply Forall_replicate. reflexivity.
Qed.

Lemma no_write_unless_singleton_witness :
  list_response bilingual = Returns (lazy_of_list bilingual_tracks)
  /\ length bilingual_tracks <> 1
  /\ fst (example bilingual used_world) = Ok tt
  /\ fs (snd (example bilingual used_world)) = fs used_world
  /\ Forall (fun ev => touches_file ev = false)
            (new_events used_world (snd (example bilingual used_world))).
Proof.
  split; [reflexivity|].
  split; [simpl; lia|].
  apply (no_write_unless_singleton bilingual bilingual_tracks used_world).
  - reflexivity.
  - simpl; lia.
Defined.

(** C4. Join correctness: for every sequence of caption entries that carry
    a text, the string the script writes, which is then the content of the
    output file, is the texts in sequence order joined by single spaces.
    Its length is the total length of the texts plus one for each boundary
    between neighbours, so nothing is trimmed and nothing (no newline) is
    added at the end; every text, empty or with spaces inside, stands
    unaltered at its offset; and every text but the last is followed by
    exactly one space, right after which the next text starts. *)
Theorem join_correctness (lib : Collaborator) (t : Transcript)
    (my_ts : FetchedTranscript) (my_ts_l : list CaptionEntry)
    (texts : list string) (w : World)
    (Hlist : list_response lib = Returns (lazy_of_list [t]))
    (Hfetch : fetch t = Returns my_ts)
    (Hraw : to_raw_data my_ts = Returns my_ts_l)
    (Htexts : Forall2 has_text my_ts_l texts) :
  exists data : string,
    In (EvWrite OUTPUT_PATH data) (new_events w (snd (example lib w)))
    /\ fs (snd (example lib w)) !! OUTPUT_PATH = Some data
    /\ data = String.concat " " texts
    /\ String.length data =
         sum_list (String.length <$> texts) + (length texts - 1)
    /\ (forall i s, texts !! i = Some s ->
          String.substring (offset texts i) (String.length s) data = s)
    /\ (forall i s, texts !! i = Some s -> S i < length texts ->
          String.get (offset texts i + String.length s) data = Some " "%char
          /\ offset texts (S i) = offset texts i + String.length s + 1).
Proof.
  exists (String.concat " " texts).
  rewrite (example_writes lib t my_ts my_ts_l texts w Hlist Hfetch Hraw Htexts).
  unfold new_events; simpl. rewrite drop_app_length.
  split; [simpl; tauto|].
  split; [apply lookup_insert_eq|].
  split; [reflexivity|].
  split; [apply concat_length|].
  split; [apply concat_verbatim | apply concat_boundary].
Qed.

Lemma join_correctness_witness :
  list_response spaced = Returns (lazy_of_list [spaced_track])
  /\ Forall2 has_text spaced_entries spaced_texts
  /\ exists data : string,
       In (EvWrite OUTPUT_PATH data)
          (new_events empty_world (snd (example spaced empty_world)))
       /\ fs (snd (example spaced empty_world)) !! OUTPUT_PATH = Some data
       /\ data = String.concat " " spaced_texts
       /\ String.length data =
            sum_list (String.length <$> spaced_texts)
            + (length spaced_texts - 1)
       /\ (forall i s, spaced_texts !! i = Some s ->
             String.substring (offset spaced_texts i) (String.length s) data
             = s)
       /\ (forall i s, spaced_texts !! i = Some s ->
             S i < length spaced_texts ->
             String.get (offset spaced_texts i + String.length s) data
             = Some " "%char
             /\ offset spaced_texts (S i)
                = offset spaced_texts i + String.length s + 1).
Proof.
  assert (H : Forall2 has_text spaced_entries spaced_texts)
    by (repeat constructor; reflexivity).
  split; [reflexivity|].
  split; [exact H|].
  exact (join_correctness spaced spaced_track
           {| to_raw_data := Returns spaced_entries |}
           spaced_entries spaced_texts empty_world
           eq_refl eq_refl eq_refl H).
Defined.

(** C5. Idempotence: against a collaborator that answers with a single
    transcript whose entries carry a text, a run followed by a second run
    leaves the same output file as the first run alone: after each of the
    two runs the content of the file is the joined text, once (an
    overwrite, not an append), and the second run changes no file at
    all. *)
Theorem rerun_overwrites (lib : Collaborator) (t : Transcript)
    (my_ts : FetchedTranscript) (my_ts_l : list CaptionEntry)
    (texts : list string) (w : World)
    (Hlist : list_response lib = Returns (lazy_of_list [t]))
    (Hfetch : fetch t = Returns my_ts)
    (Hraw : to_raw_data my_ts = Returns my_ts_l)
    (Htexts : Forall2 has_text my_ts_l texts) :
  let once := snd (example lib w) in
  let twice := snd (example lib once) in
  fs once !! OUTPUT_PATH = Some (String.concat " " texts)
  /\ fs twice !! OUTPUT_PATH = Some (String.concat " " texts)
  /\ fs twice = fs once.
Proof.
  intros once twice. subst twice once.
  rewrite !(example_writes lib t my_ts my_ts_l texts _ Hlist Hfetch Hraw Htexts).
  simpl. rewrite insert_insert_eq.
  split; [apply lookup_insert_eq|].
  split; [apply lookup_insert_eq|reflexivity].
Qed.

Lemma rerun_overwrites_witness :
  list_response hello_world
    = Returns (lazy_of_list [track "en" [entry "Hello"; entry "world"]])
  /\ Forall2 has_text [entry "Hello"; entry "world"] ["Hello"; "world"]
  /\ fs (snd (example hello_world used_world)) !! OUTPUT_PATH
     = Some "Hello world"
  /\ fs (snd (example hello_world (snd (example hello_world used_world))))
       !! OUTPUT_PATH
     = Some "Hello world"
  /\ fs (snd (example hello_world (snd (example hello_world used_world))))
     = fs (snd (example hello_world used_world)).
Proof.
  assert (H : Forall2 has_text [entry "Hello"; entry "world"]
                               ["Hello"; "world"])
    by (repeat constructor; reflexivity).
  split; [reflexivity|].
  split; [exact H|].
  exact (rerun_overwrites hello_world
           (track "en" [entry "Hello"; entry "world"])
           {| to_raw_data := Returns [entry "Hello"; entry "world"] |}
           [entry "Hello"; entry "world"] ["Hello"; "world"] used_world
           eq_refl eq_refl eq_refl H).
Defined.

(** C6. Propagation: when a library call of the run raises a failure (the
    list call, the fetch call, and likewise the constructor, a step of the
    enumeration or the conversion), the script catches nothing: the run
    ends with that very failure, the last event of the run is the failing
    call, and no file has changed. *)
Theorem failures_propagate (lib : Collaborator) (e : failure)
    (evs : list Event) (w : World)
    (Hraises : collaborator_raises lib e evs) :
  example lib w = (Raise (CollaboratorError e), record w evs).
Proof.
  rewrite example_run.
  destruct Hraises as [Hc | api Hc Hl | tl Hl He | t Hl Hf | t my_ts Hl Hf Hr].
  - unfold example_summary. by rewrite Hc.
  - unfold example_summary. by rewrite Hc, Hl.
  - apply list_response_returns in Hl as (api & Hc & Hl).
    unfold example_summary. by rewrite Hc, Hl, He.
  - rewrite <- example_run. by apply fetch_failure_run.
  - rewrite <- example_run. by apply (conversion_failure_run lib t my_ts).
Qed.

Lemma failures_propagate_witness :
  collaborator_raises captions_disabled NoTranscripts
    [EvConstruct; EvList VIDEO_ID]
  /\ example captions_disabled used_world
     = (Raise (CollaboratorError NoTranscripts),
        record used_world [EvConstruct; EvList VIDEO_ID]).
Proof.
  assert (H : collaborator_raises captions_disabled NoTranscripts
                [EvConstruct; EvList VIDEO_ID])
    by (apply (raises_in_list _ _ {| api_list := fun _ => Fails NoTranscripts |});
        reflexivity).
  split; [exact H|].
  exact (failures_propagate captions_disabled NoTranscripts _ used_world H).
Defined.

(** C7. Materialization: the lazy sequence returned by the list call is
    consumed to its end before anything else happens.  When it ends
    normally the rest of the script (length check, selection and what
    follows) runs on the list of its elements in a world that already holds
    every enumeration event; when it fails the run ends there.  In both
    cases the run makes one enumeration step for each element and one to
    find the end, and the rest of the script makes none. *)
Theorem materialized_before_selection (lib : Collaborator)
    (tl : LazySeq Transcript) (w : World)
    (Hlist : list_response lib = Returns tl) :
  let listed := record w (listing_events (length (seq_items tl))) in
  (seq_end tl = None -> example lib w = process (seq_items tl) listed)
  /\ (forall e, seq_end tl = Some e ->
        example lib w = (Raise (CollaboratorError e), listed))
  /\ count_occ Event_eq_dec (new_events w (snd (example lib w))) EvNext
     = S (length (seq_items tl))
  /\ (forall ts w0,
        count_occ Event_eq_dec (new_events w0 (snd (process ts w0))) EvNext
        = 0).
Proof.
  intros listed. subst listed.
  destruct (list_response_returns lib tl Hlist) as (api & Hc & Hl).
  assert (Hs : example_summary lib =
               match seq_end tl with
               | Some e =>
                   {| outcome := Raise (CollaboratorError e);
                      events := listing_events (length (seq_items tl));
                      content := None |}
               | None => after (listing_events (length (seq_items tl)))
                               (process_summary (seq_items tl))
               end)
    by (unfold example_summary; by rewrite Hc, Hl).
  repeat split.
  - intros He. rewrite example_run, Hs, He, process_run. symmetry.
    apply apply_after.
  - intros e He. by rewrite example_run, Hs, He.
  - rewrite example_run, new_events_apply, Hs.
    destruct (seq_end tl) as [e|]; unfold after; cbn [events].
    + apply count_next_listing.
    + rewrite count_occ_app, count_next_listing, count_next_process. lia.
  - intros ts w0. rewrite process_run, new_events_apply.
    apply count_next_process.
Qed.

Lemma materialized_before_selection_witness :
  list_response bilingual = Returns (lazy_of_list bilingual_tracks)
  /\ count_occ Event_eq_dec
       (new_events empty_world (snd (example bilingual empty_world))) EvNext
     = 3.
Proof.
  split; [reflexivity|].
  exact (proj1 (proj2 (proj2
    (materialized_before_selection bilingual (lazy_of_list bilingual_tracks)
       empty_world eq_refl)))).
Defined.

(** C8. The subscript [transcripts[0]] is evaluated only when the length
    check has succeeded: on every list of length one it returns an
    element, on every list where it would fault the selection does not
    evaluate it and yields [None], so the selection never raises; and no
    run of the script, against any collaborator and from any world, ends
    with an [IndexError]. *)
Theorem subscript_in_bounds (ts : list Transcript) :
  (length ts = 1 -> exists t, list_getitem ts 0 = Ok t)
  /\ (list_getitem ts 0 = Raise IndexError -> select ts = Ok None)
  /\ (exists o, select ts = Ok o)
  /\ (forall lib w, fst (example lib w) <> Raise IndexError).
Proof.
  split; [|split; [|split]].
  - intros [t ->]%length_one. by exists t.
  - destruct ts as [|t ts]; [reflexivity | discriminate].
  - destruct (decide (length ts = 1)) as [[t ->]%length_one|Hne].
    + by exists (Some t).
    + exists None. by apply select_other.
  - intros lib w. rewrite example_run. apply example_never_index_error.
Qed.

(** C9. Atomicity on error: when exactly one transcript is listed and its
    fetch, or the conversion of the fetched data, raises a failure, the run
    ends with that failure, every path of the file system holds what it
    held before (the output file is neither created nor modified) and no
    event of the run is a file operation.  Conversely, a run opens a file
    only when the fetch and the conversion of the single listed transcript
    have both returned. *)
Theorem failure_before_open (lib : Collaborator) (t : Transcript)
    (e : failure) (w : World)
    (Hlist : list_response lib = Returns (lazy_of_list [t]))
    (Hfail : fetch t = Fails e
             \/ exists my_ts, fetch t = Returns my_ts
                              /\ to_raw_data my_ts = Fails e) :
  fst (example lib w) = Raise (CollaboratorError e)
  /\ fs (snd (example lib w)) = fs w
  /\ Forall (fun ev => touches_file ev = false)
            (new_events w (snd (example lib w)))
  /\ (forall lib' w' path,
        In (EvOpen path) (new_events w' (snd (example lib' w'))) ->
        exists tl t' my_ts my_ts_l,
          list_response lib' = Returns tl
          /\ seq_end tl = None
          /\ seq_items tl = [t']
          /\ fetch t' = Returns my_ts
          /\ to_raw_data my_ts = Returns my_ts_l).
Proof.
  split; [|split; [|split]].
  - destruct Hfail as [Hf | (my_ts & Hf & Hr)].
    + by rewrite (fetch_failure_run lib t e w Hlist Hf).
    + by rewrite (conversion_failure_run lib t my_ts e w Hlist Hf Hr).
  - destruct Hfail as [Hf | (my_ts & Hf & Hr)].
    + by rewrite (fetch_failure_run lib t e w Hlist Hf).
    + by rewrite (conversion_failure_run lib t my_ts e w Hlist Hf Hr).
  - destruct Hfail as [Hf | (my_ts & Hf & Hr)].
    + rewrite (fetch_failure_run lib t e w Hlist Hf).
      unfold new_events, record; simpl. rewrite drop_app_length.
      by repeat constructor.
    + rewrite (conversion_failure_run lib t my_ts e w Hlist Hf Hr).
      unfold new_events, record; simpl. rewrite drop_app_length.
      by repeat constructor.
  - intros lib' w' path. rewrite example_run, new_events_apply.
    apply example_opens.
Qed.

Lemma failure_before_open_witness :
  list_response fetch_blocked = Returns (lazy_of_list [unreachable_track])
  /\ fetch unreachable_track = Fails TransportFailure
  /\ fst (example fetch_blocked used_world)
     = Raise (CollaboratorError TransportFailure)
  /\ fs (snd (example fetch_blocked used_world)) = fs used_world.
Proof.
  split; [reflexivity|].
  split; [reflexivity|].
  pose proof (failure_before_open fetch_blocked unreachable_track
                TransportFailure used_world eq_refl (or_introl eq_refl))
    as (Hout & Hfs & _).
  exact (conj Hout Hfs).
Defined.




(** * Further properties of the script *)

Lemma text_fields_missing (my_ts_l : list CaptionEntry) :
  Exists (fun x => x !! "text" = None) my_ts_l ->
  text_fields my_ts_l = Raise (KeyError "text").
Proof.
  induction 1 as [x rest Hx | x rest _ IH]; simpl; unfold dict_getitem.
  - by rewrite Hx.
  - destruct (x !! "text"); [by rewrite IH | reflexivity].
Qed.

Lemma text_fields_values (my_ts_l : list CaptionEntry) (vs : list value) :
  Forall2 (fun x v => x !! "text" = Some v) my_ts_l vs ->
  text_fields my_ts_l = Ok vs.
Proof.
  induction 1 as [|x v rest vs Hx _ IH]; [reflexivity|].
  simpl. unfold dict_getitem. by rewrite Hx, IH.
Qed.

Lemma str_items_mistyped (i : nat) (strs : list string) (bits : Z)
    (rest : list value) :
  str_items i ((VStr <$> strs) ++ VFloat bits :: rest)
  = Raise (TypeError (i + length strs)).
Proof.
  revert i. induction strs as [|s strs IH]; intros i; simpl.
  - by rewrite Nat.add_0_r.
  - rewrite IH. f_equal. f_equal. lia.
Qed.

Lemma example_shape (lib : Collaborator) : run_shape (example_summary lib).
Proof.
  unfold example_summary.
  destruct (YouTubeTranscriptApi lib) as [ytt_api|e]; [|constructor].
  destruct (api_list ytt_api VIDEO_ID) as [tl|e]; [|constructor].
  destruct (seq_end tl) as [e|]; [constructor|].
  destruct (seq_items tl) as [|t [|t' ts]]; unfold after;
    cbn [process_summary outcome events content].
  - rewrite app_nil_r. by apply shape_not_selected.
  - unfold save_summary.
    destruct (fetch t) as [my_ts|e]; [|apply shape_no_fetch].
    destruct (to_raw_data my_ts) as [my_ts_l|e]; [|apply shape_no_conversion].
    destruct (written_text my_ts_l) as [data|e];
      [apply shape_written | apply shape_no_text].
  - rewrite app_nil_r. apply shape_not_selected. simpl. lia.
Qed.

Lemma calls_app (kind : Event -> bool) (evs evs' : list Event) :
  calls kind (evs ++ evs') = calls kind evs + calls kind evs'.
Proof. unfold calls. by rewrite List.filter_app, length_app. Qed.

Lemma calls_next (kind : Event -> bool) (n : nat) :
  kind EvNext = false -> calls kind (replicate n EvNext) = 0.
Proof.
  intros H. unfold calls. induction n as [|n IH]; [reflexivity|].
  simpl. by rewrite H.
Qed.

Lemma calls_listing (kind : Event -> bool) (n : nat) :
  kind EvNext = false ->
  calls kind (listing_events n) = calls kind [EvConstruct; EvList VIDEO_ID].
Proof.
  intros H. unfold listing_events. rewrite calls_app, calls_next by done. lia.
Qed.

Lemma in_listing (ev : Event) (n : nat) :
  In ev (listing_events n) ->
  ev = EvConstruct \/ ev = EvList VIDEO_ID \/ ev = EvNext.
Proof.
  unfold listing_events. intros [H|H]%in_app_or.
  - destruct H as [<-|[<-|[]]]; auto.
  - apply list_elem_of_In, elem_of_replicate in H as [-> _]. auto.
Qed.

(** X1. Missing text: when the single listed transcript has an entry
    without a [text] key, the run ends with [KeyError] for that key,
    whatever the other entries hold.  The subscript is evaluated inside the
    [with] block, so the output file has been opened by then: it is left
    empty, what it held before is lost, nothing is written, and the file is
    closed. *)
Theorem missing_text_empties_file (lib : Collaborator) (t : Transcript)
    (my_ts : FetchedTranscript) (my_ts_l : list CaptionEntry) (w : World)
    (Hlist : list_response lib = Returns (lazy_of_list [t]))
    (Hfetch : fetch t = Returns my_ts)
    (Hraw : to_raw_data my_ts = Returns my_ts_l)
    (Hmissing : Exists (fun x => x !! "text" = None) my_ts_l) :
  example lib w =
  (Raise (KeyError "text"),
   {| fs := <[OUTPUT_PATH := ""]> (fs w);
      log := log w ++ listing_events 1
                   ++ [EvFetch (language_code t); EvToRawData;
                       EvOpen OUTPUT_PATH; EvClose OUTPUT_PATH] |}).
Proof.
  apply (extraction_failure_run lib t my_ts my_ts_l); try done.
  unfold written_text. by rewrite (text_fields_missing _ Hmissing).
Qed.

Lemma missing_text_empties_file_witness :
  list_response untexted = Returns (lazy_of_list [track "en" untexted_entries])
  /\ Exists (fun x : CaptionEntry => x !! "text" = None) untexted_entries
  /\ fst (example untexted used_world) = Raise (KeyError "text")
  /\ fs (snd (example untexted used_world)) !! OUTPUT_PATH = Some "".
Proof.
  assert (H : Exists (fun x : CaptionEntry => x !! "text" = None)
                     untexted_entries)
    by (apply Exists_cons_tl, Exists_cons_hd; reflexivity).
  split; [reflexivity|].
  split; [exact H|].
  rewrite (missing_text_empties_file untexted (track "en" untexted_entries)
             {| to_raw_data := Returns untexted_entries |}
             untexted_entries used_world eq_refl eq_refl eq_refl H).
  split; reflexivity.
Defined.

(** X2. Text that is not a string: when every entry of the single listed
    transcript has a [text] and the first one that is not a [str] stands at
    position [i], the run ends with the [TypeError] of [str.join] for item
    [i]; the output file, already opened, is left empty and closed, and
    nothing is written. *)
Theorem mistyped_text_empties_file (lib : Collaborator) (t : Transcript)
    (my_ts : FetchedTranscript) (my_ts_l : list CaptionEntry)
    (strs : list string) (bits : Z) (rest : list value) (w : World)
    (Hlist : list_response lib = Returns (lazy_of_list [t]))
    (Hfetch : fetch t = Returns my_ts)
    (Hraw : to_raw_data my_ts = Returns my_ts_l)
    (Hvalues : Forall2 (fun x v => x !! "text" = Some v) my_ts_l
                       ((VStr <$> strs) ++ VFloat bits :: rest)) :
  example lib w =
  (Raise (TypeError (length strs)),
   {| fs := <[OUTPUT_PATH := ""]> (fs w);
      log := log w ++ listing_events 1
                   ++ [EvFetch (language_code t); EvToRawData;
                       EvOpen OUTPUT_PATH; EvClose OUTPUT_PATH] |}).
Proof.
  apply (extraction_failure_run lib t my_ts my_ts_l); try done.
  unfold written_text, str_join.
  by rewrite (text_fields_values _ _ Hvalues), str_items_mistyped.
Qed.

Lemma mistyped_text_empties_file_witness :
  list_response mistyped = Returns (lazy_of_list [track "en" mistyped_entries])
  /\ Forall2 (fun (x : CaptionEntry) v => x !! "text" = Some v)
             mistyped_entries
             ((VStr <$> ["Hello"]) ++ VFloat 0 :: [VStr "world"])
  /\ fst (example mistyped used_world) = Raise (TypeError 1)
  /\ fs (snd (example mistyped used_world)) !! OUTPUT_PATH = Some "".
Proof.
  assert (H : Forall2 (fun (x : CaptionEntry) v => x !! "text" = Some v)
                mistyped_entries
                ((VStr <$> ["Hello"]) ++ VFloat 0 :: [VStr "world"]))
    by (repeat constructor; reflexivity).
  split; [reflexivity|].
  split; [exact H|].
  rewrite (mistyped_text_empties_file mistyped (track "en" mistyped_entries)
             {| to_raw_data := Returns mistyped_entries |}
             mistyped_entries ["Hello"] 0 [VStr "world"] used_world
             eq_refl eq_refl eq_refl H).
  split; reflexivity.
Defined.

(** X3. The file is always closed: in every run that opens a file, the
    file is the output file, it is opened once and closed once, and the
    close is the last event of the run, also when the body of the [with]
    block raised. *)
Theorem file_always_closed (lib : Collaborator) (w : World) (path : string)
    (Hopen : In (EvOpen path) (new_events w (snd (example lib w)))) :
  path = OUTPUT_PATH
  /\ calls is_open_call (new_events w (snd (example lib w))) = 1
  /\ calls is_close_call (new_events w (snd (example lib w))) = 1
  /\ last (new_events w (snd (example lib w))) = Some (EvClose OUTPUT_PATH).
Proof.
  revert Hopen. rewrite example_run, new_events_apply.
  destruct (example_shape lib) as [e|e|e n|n Hn|e l|e l|e l|l data];
    cbn [events]; intros H.
  - by destruct H as [|[]].
  - by destruct H as [|[|[]]].
  - by apply listing_never_opens in H.
  - by apply listing_never_opens in H.
  - apply in_app_or in H as [H|H]; [by apply listing_never_opens in H|].
    by destruct H as [|[]].
  - apply in_app_or in H as [H|H]; [by apply listing_never_opens in H|].
    by destruct H as [|[|[]]].
  - apply in_app_or in H as [H|H]; [by apply listing_never_opens in H|].
    destruct H as [|[|[[= <-]|[|[]]]]]; try done.
  - apply in_app_or in H as [H|H]; [by apply listing_never_opens in H|].
    destruct H as [|[|[[= <-]|[|[|[]]]]]]; try done.
Qed.

Lemma file_always_closed_witness :
  In (EvOpen OUTPUT_PATH)
     (new_events used_world (snd (example untexted used_world)))
  /\ calls is_close_call
       (new_events used_world (snd (example untexted used_world))) = 1
  /\ last (new_events used_world (snd (example untexted used_world)))
     = Some (EvClose OUTPUT_PATH).
Proof.
  assert (H : In (EvOpen OUTPUT_PATH)
                 (new_events used_world (snd (example untexted used_world))))
    by (vm_compute; tauto).
  split; [exact H|].
  exact (proj2 (proj2 (file_always_closed untexted used_world OUTPUT_PATH H))).
Defined.

(** X6. Call budget: every run builds the client once, makes at most one
    list call, and that for the fixed video identifier, fetches at most one
    transcript, converts at most once, and opens and writes at most one
    time each. *)
Theorem call_budget (lib : Collaborator) (w : World) :
  calls is_construct_call (new_events w (snd (example lib w))) = 1
  /\ calls is_list_call (new_events w (snd (example lib w))) <= 1
  /\ (forall video_id,
        In (EvList video_id) (new_events w (snd (example lib w))) ->
        video_id = VIDEO_ID)
  /\ calls is_fetch_call (new_events w (snd (example lib w))) <= 1
  /\ calls is_conversion_call (new_events w (snd (example lib w))) <= 1
  /\ calls is_open_call (new_events w (snd (example lib w))) <= 1
  /\ calls is_write_call (new_events w (snd (example lib w))) <= 1.
Proof.
  rewrite example_run, new_events_apply.
  assert (Hid : forall n rest video_id,
            In (EvList video_id) (listing_events n ++ rest) ->
            (forall id', ~ In (EvList id') rest) ->
            video_id = VIDEO_ID).
  { intros n rest video_id [H|H]%in_app_or Hrest.
    - by apply in_listing in H as [|[[= ->]|]].
    - by apply Hrest in H. }
  destruct (example_shape lib) as [e|e|e n|n Hn|e l|e l|e l|l data];
    cbn [events];
    rewrite ?calls_app, ?calls_listing by reflexivity;
    (split; [reflexivity|]); (split; [unfold calls; simpl; lia|]);
    (split; [|unfold calls; simpl; lia]).
  - by intros id [|[]].
  - by intros id [|[[= <-]|[]]].
  - intros id H. apply (Hid n [] id); [by rewrite app_nil_r | by intros ? []].
  - intros id H. apply (Hid n [] id); [by rewrite app_nil_r | by intros ? []].
  - intros id H. apply (Hid _ _ _ H). by intros ? [|[]].
  - intros id H. apply (Hid _ _ _ H). by intros ? [|[|[]]].
  - intros id H. apply (Hid _ _ _ H). by intros ? [|[|[|[|[]]]]].
  - intros id H. apply (Hid _ _ _ H). by intros ? [|[|[|[|[|[]]]]]].
Qed.



(** X9. Silent success: a run ends normally without having written
    anything exactly when the list call returned a sequence that ended
    normally and did not have exactly one element.  A normal end without
    output therefore always means zero or several transcripts. *)
Theorem silent_success_iff (lib : Collaborator) (w : World) :
  (fst (example lib w) = Ok tt
   /\ calls is_write_call (new_events w (snd (example lib w))) = 0)
  <-> exists tl, list_response lib = Returns tl
                 /\ seq_end tl = None
                 /\ length (seq_items tl) <> 1.
Proof.
  rewrite example_run, new_events_apply. unfold apply_summary; cbn [fst].
  unfold example_summary, list_response.
  destruct (YouTubeTranscriptApi lib) as [ytt_api|e].
  2:{ split; [by intros [? _] | by intros (tl & ? & _)]. }
  destruct (api_list ytt_api VIDEO_ID) as [tl|e].
  2:{ split; [by intros [? _] | by intros (tl & ? & _)]. }
  destruct (seq_end tl) as [e|] eqn:He.
  { split; [by intros [? _] | intros (tl' & [= <-] & He' & _); congruence]. }
  split.
  - intros [Hok Hw]. exists tl. repeat split; [done|].
    intros Hone. apply length_one in Hone as [t Ht]. rewrite Ht in Hok, Hw.
    unfold after in Hok, Hw; cbn [process_summary outcome events] in Hok, Hw.
    rewrite calls_app, calls_listing in Hw by reflexivity.
    unfold save_summary in Hok, Hw.
    destruct (fetch t) as [my_ts|e]; [|done].
    destruct (to_raw_data my_ts) as [my_ts_l|e]; [|done].
    by destruct (written_text my_ts_l) as [data|e].
  - intros (tl' & [= <-] & _ & Hne).
    rewrite (process_summary_other _ Hne). unfold after; cbn [outcome events].
    split; [reflexivity|].
    by rewrite app_nil_r, calls_listing.
Qed.

(** X10. Joining composes: for two non-empty runs of entries that carry a
    text, the string written for the first followed by the second is the
    string written for the first, one space, and the string written for
    the second. *)
Theorem written_text_app (l1 l2 : list CaptionEntry)
    (texts1 texts2 : list string)
    (H1 : Forall2 has_text l1 texts1)
    (H2 : Forall2 has_text l2 texts2)
    (Hne1 : l1 <> [])
    (Hne2 : l2 <> []) :
  exists s1 s2 : string,
    written_text l1 = Ok s1
    /\ written_text l2 = Ok s2
    /\ written_text (l1 ++ l2)%list = Ok (s1 +:+ " " +:+ s2).
Proof.
  exists (String.concat " " texts1), (String.concat " " texts2).
  split; [by apply written_text_has_text|].
  split; [by apply written_text_has_text|].
  rewrite (written_text_has_text (l1 ++ l2) (texts1 ++ texts2))
    by (by apply Forall2_app).
  rewrite <- !join_strs_concat. f_equal. apply join_strs_app.
  - intros ->. apply Forall2_nil_inv_r in H1. done.
  - intros ->. apply Forall2_nil_inv_r in H2. done.
Qed.

Lemma written_text_app_witness :
  Forall2 has_text [entry "Hello"] ["Hello"]
  /\ Forall2 has_text [entry ""; entry "world"] [""; "world"]
  /\ written_text ([entry "Hello"] ++ [entry ""; entry "world"])%list
     = Ok "Hello  world".
Proof.
  assert (H1 : Forall2 has_text [entry "Hello"] ["Hello"])
    by (repeat constructor; reflexivity).
  assert (H2 : Forall2 has_text [entry ""; entry "world"] [""; "world"])
    by (repeat constructor; reflexivity).
  split; [exact H1|].
  split; [exact H2|].
  destruct (written_text_app [entry "Hello"] [entry ""; entry "world"]
              ["Hello"] [""; "world"] H1 H2 ltac:(discriminate)
              ltac:(discriminate))
    as (s1 & s2 & E1 & E2 & E).
  rewrite E. vm_compute in E1, E2.
  injection E1 as <-. injection E2 as <-. reflexivity.
Defined.
